(** * stt_bot.py: the per-request transcription pipeline

    A shallow embedding of [transcribe_voice] and [handle_media] from
    [src/stt_bot.py], and the properties of the pipeline that follow from it.

    Python statements are embedded as state transformers over the function's
    local variables and a [World] (the files of the scratch directory and the
    chronological trace of calls made to the collaborators).  A statement
    completes normally, by [raise] or by [return], so that [try], [except]
    and [finally] read as they do in the source.

    Scope of the model:
    - every exception is an instance of [Exception] (KeyboardInterrupt,
      SystemExit and task cancellation are outside of it);
    - the collaborators (Telegram, pydub, speech_recognition, the clock) are
      not part of the repository: what each of their calls answers is read
      from an environment [Env], one field per call site;
    - the scratch directory is changed by the modelled request only;
      [os.remove] of a file that is not there raises, and of a file that is
      there it raises when the environment says so (the file stays). *)

From Stdlib Require Import Ascii String.
From stdpp Require Import base decidable option list sets gmap strings pretty.

(** ** Python values *)

(** The line feed of the literal [\n]. *)
Definition LF : string := String (Ascii.ascii_of_nat 10) "".

(** The exceptions the pipeline can meet, by the classes its [except]
    clauses tell apart. *)
Inductive exn : Type :=
  | UnknownValueError                (* sr.UnknownValueError *)
  | RequestError (msg : string)      (* sr.RequestError *)
  | OSError (msg : string)           (* OSError and its subclasses *)
  | TelegramError (msg : string)     (* telegram.error.TelegramError *)
  | OtherException (msg : string).   (* any other subclass of Exception *)

(** [str(e)], as an f-string renders [{e}]. *)
Definition exn_str (e : exn) : string :=
  match e with
  | UnknownValueError => ""
  | RequestError msg | OSError msg | TelegramError msg | OtherException msg => msg
  end.

(** Truth value of an [Optional[str]]: [None] and [""] are false. *)
Definition truthy (v : option string) : bool :=
  match v with
  | Some s => negb (bool_decide (s = ""))
  | None => false
  end.

(** ** The world outside of the handler *)

Inductive LogLevel : Type := DEBUG | INFO | WARNING | ERROR.

Inductive ChatAction : Type := RECORD_VOICE | RECORD_VIDEO.

(** The call sites that send or edit the status message. *)
Inductive Site : Type :=
  | Acknowledge        (* line 103: update.message.reply_text *)
  | EditConverting     (* line 133 *)
  | EditFailure        (* line 144 *)
  | EditRecognizing    (* line 152 *)
  | EditResult         (* line 157 *)
  | EditFallback.      (* line 160 *)

#[global] Instance Site_eq_dec : EqDecision Site.
Proof. solve_decision. Defined.

(** One entry per call made to a collaborator, in the order of the calls. *)
Inductive Event : Type :=
  | EvStatus (site : Site) (text : string) (parse_mode : option string)
  | EvChatAction (chat_id : Z) (action : ChatAction)
  | EvGetFile (file_id : string)
  | EvDownload (file_id : string) (path : string)
  | EvFromFile (path : string) (format : string)
  | EvExport (path : string) (format : string)
  | EvRecognize (path : string) (language : string)
  | EvMakedirs (path : string)
  | EvRemove (path : string)
  | EvLog (level : LogLevel) (msg : string).

Record World : Type := mkWorld {
  files : gset string;      (* the regular files that exist *)
  trace : list Event        (* the calls made so far, oldest first *)
}.

(** What a call that writes a file answers: the file is written, or the call
    raises, having created the file or not. *)
Inductive WriteResult : Type :=
  | Written
  | WriteFailed (e : exn) (leaves_file : bool).

Record Env : Type := mkEnv {
  now : Z;                              (* int(time.time()) *)
  status_fault : Site -> option exn;    (* reply_text, edit_text *)
  makedirs_fault : option exn;          (* os.makedirs *)
  chat_action_fault : option exn;       (* bot.send_chat_action *)
  get_file_fault : option exn;          (* voice.get_file, video_note.get_file *)
  download_result : WriteResult;        (* media_file.download_to_drive *)
  from_file_fault : option exn;         (* AudioSegment.from_file *)
  export_result : WriteResult;          (* audio.export *)
  recognize_result : exn + string;      (* sr.AudioFile, record, recognize_google *)
  remove_fault : string -> option string  (* os.remove of a file that exists: the
                                             message of its OSError *)
}.

(** ** Statements *)

Inductive Completion (R A : Type) : Type :=
  | Normal (a : A)
  | Raise (e : exn)
  | Return (r : R).
Arguments Normal {R A} a.
Arguments Raise {R A} e.
Arguments Return {R A} r.

(** A statement of a function with locals [L] and return type [R]. *)
Definition Stmt (L R A : Type) : Type := L -> World -> Completion R A * L * World.

Definition pure {L R A} (a : A) : Stmt L R A := fun l w => (Normal a, l, w).

Definition bind {L R A B} (c : Stmt L R A) (k : A -> Stmt L R B) : Stmt L R B :=
  fun l w =>
    match c l w with
    | (Normal a, l', w') => k a l' w'
    | (Raise e, l', w') => (Raise e, l', w')
    | (Return r, l', w') => (Return r, l', w')
    end.

Declare Scope stmt_scope.
Delimit Scope stmt_scope with stmt.
Bind Scope stmt_scope with Stmt.
Notation "x <- c ;; k" := (bind c (fun x => k))
  (at level 100, c at next level, k at level 200, right associativity) : stmt_scope.
Notation "c ;; k" := (bind c (fun _ => k))
  (at level 100, k at level 200, right associativity) : stmt_scope.
Open Scope stmt_scope.

Definition pass {L R} : Stmt L R unit := pure tt.
Definition raise {L R A} (e : exn) : Stmt L R A := fun l w => (Raise e, l, w).
Definition return_ {L R A} (r : R) : Stmt L R A := fun l w => (Return r, l, w).

Definition get_locals {L R} : Stmt L R L := fun l w => (Normal l, l, w).
Definition set_locals {L R} (f : L -> L) : Stmt L R unit := fun l w => (Normal tt, f l, w).

(** [try: body / except Exception as e: handler e]. *)
Definition try_except {L R A} (body : Stmt L R A) (handler : exn -> Stmt L R A) : Stmt L R A :=
  fun l w =>
    match body l w with
    | (Raise e, l', w') => handler e l' w'
    | r => r
    end.

(** [try: body / finally: final]: [final] runs on every exit of [body], and
    the completion of [body] stands unless [final] itself raises or returns. *)
Definition try_finally {L R A} (body : Stmt L R A) (final : Stmt L R unit) : Stmt L R A :=
  fun l w =>
    match body l w with
    | (c, l', w') =>
        match final l' w' with
        | (Normal _, l'', w'') => (c, l'', w'')
        | (Raise e, l'', w'') => (Raise e, l'', w'')
        | (Return r, l'', w'') => (Return r, l'', w'')
        end
    end.

(** A call of a function whose body is [body]: fresh locals, and a body that
    runs off its end returns [default] (Python's [None]). *)
Definition call {L L' R R' A} (default : R') (body : Stmt L' R' A) (l0 : L') : Stmt L R R' :=
  fun l w =>
    match body l0 w with
    | (Normal _, _, w') => (Normal default, l, w')
    | (Return r, _, w') => (Normal r, l, w')
    | (Raise e, _, w') => (Raise e, l, w')
    end.

(** What the caller of a function sees. *)
Definition run {L R A} (default : R) (body : Stmt L R A) (l0 : L) (w : World) : (exn + R) * World :=
  match body l0 w with
  | (Normal _, _, w') => (inr default, w')
  | (Return r, _, w') => (inr r, w')
  | (Raise e, _, w') => (inl e, w')
  end.

(** ** Calls to the collaborators *)

Definition emit {L R} (ev : Event) : Stmt L R unit :=
  fun l w => (Normal tt, l, mkWorld (files w) (trace w ++ [ev])).

Definition fault {L R} (f : option exn) : Stmt L R unit :=
  match f with
  | Some e => raise e
  | None => pass
  end.

Definition create_file {L R} (path : string) : Stmt L R unit :=
  fun l w => (Normal tt, l, mkWorld ({[ path ]} ∪ files w) (trace w)).

Definition write_file {L R} (res : WriteResult) (path : string) : Stmt L R unit :=
  match res with
  | Written => create_file path
  | WriteFailed e leaves_file =>
      (if leaves_file then create_file path else pass) ;; raise e
  end.

Definition log {L R} (level : LogLevel) (msg : string) : Stmt L R unit :=
  emit (EvLog level msg).

Definition os_path_exists {L R} (path : string) : Stmt L R bool :=
  fun l w => (Normal (bool_decide (path ∈ files w)), l, w).

Definition os_remove {L R} (env : Env) (path : string) : Stmt L R unit :=
  emit (EvRemove path) ;;
  present <- os_path_exists path ;;
  if present : bool
  then
    match remove_fault env path with
    | Some msg => raise (OSError msg)
    | None => fun l w => (Normal tt, l, mkWorld (files w ∖ {[ path ]}) (trace w))
    end
  else raise (OSError ("[Errno 2] No such file or directory: '" +:+ path +:+ "'")).

Definition os_makedirs {L R} (env : Env) (path : string) : Stmt L R unit :=
  emit (EvMakedirs path) ;; fault (makedirs_fault env).

Definition send_status {L R} (env : Env) (site : Site) (text : string)
    (parse_mode : option string) : Stmt L R unit :=
  emit (EvStatus site text parse_mode) ;; fault (status_fault env site).

Definition send_chat_action {L R} (env : Env) (chat_id : Z) (action : ChatAction) : Stmt L R unit :=
  emit (EvChatAction chat_id action) ;; fault (chat_action_fault env).

Definition get_file {L R} (env : Env) (file_id : string) : Stmt L R string :=
  emit (EvGetFile file_id) ;; fault (get_file_fault env) ;; pure file_id.

Definition download_to_drive {L R} (env : Env) (media_file : string) (path : string) : Stmt L R unit :=
  emit (EvDownload media_file path) ;; write_file (download_result env) path.

Definition from_file {L R} (env : Env) (path : string) (format : string) : Stmt L R unit :=
  emit (EvFromFile path format) ;; fault (from_file_fault env).

Definition export {L R} (env : Env) (path : string) (format : string) : Stmt L R unit :=
  emit (EvExport path format) ;; write_file (export_result env) path.

(** [recognize_sync] (lines 53-57), as one call: it opens the file, records
    it and asks the provider.  [EvRecognize] marks that the call is made;
    its answer, [recognize_result], is the transcript or the exception of
    any of the three steps. *)
Definition recognize_sync {L R} (env : Env) (path : string) : Stmt L R string :=
  emit (EvRecognize path "ru-RU") ;;
  match recognize_result env with
  | inl e => raise e
  | inr text => pure text
  end.

(** Reading a local that the branch taken has bound; Python raises
    otherwise. *)
Definition bound {L R A} (v : option A) (error : string) : Stmt L R A :=
  match v with
  | Some a => pure a
  | None => raise (OtherException error)
  end.

(** [posixpath.join] of two components. *)
Definition starts_with_sep (s : string) : bool :=
  match s with
  | String c _ => bool_decide (c = "/"%char)
  | EmptyString => false
  end.

Fixpoint ends_with_sep (s : string) : bool :=
  match s with
  | EmptyString => false
  | String c EmptyString => bool_decide (c = "/"%char)
  | String _ rest => ends_with_sep rest
  end.

Definition os_path_join (a b : string) : string :=
  if starts_with_sep b then b
  else if bool_decide (a = "") || ends_with_sep a then a +:+ b
  else a +:+ "/" +:+ b.

(** ** The bot *)

Definition TEMP_MEDIA_DIR : string := "temp_media".

(** *** [transcribe_voice] (lines 38-79); its one local is [text]. *)

Definition file_not_found_text : string := "[Ошибка: Внутренняя ошибка, файл не найден]".
Definition no_speech_text : string := "[Речь не распознана]".
Definition service_error_text (detail : string) : string :=
  "[Ошибка сервиса распознавания: " +:+ detail +:+ "]".
Definition audio_error_text : string := "[Ошибка обработки аудио]".

Definition transcribe_voice (env : Env) (file_path : string)
    : Stmt (option string) (option string) unit :=
  present <- os_path_exists file_path ;;
  (if negb present then
     log ERROR ("File not found for transcription: " +:+ file_path) ;;
     return_ (Some file_not_found_text)
   else pass) ;;
  log INFO ("Начинаю распознавание файла: " +:+ file_path) ;;
  set_locals (fun _ => None) ;;
  try_finally
    (try_except
       (text <- recognize_sync env file_path ;;
        set_locals (fun _ => Some text) ;;
        log INFO ("Успешно распознано: '" +:+ text +:+ "'"))
       (fun e =>
          match e with
          | UnknownValueError =>
              log WARNING "Google Speech Recognition не смогла распознать речь" ;;
              set_locals (fun _ => Some no_speech_text)
          | RequestError _ =>
              log ERROR ("Ошибка запроса к сервису Google Speech Recognition: " +:+ exn_str e) ;;
              set_locals (fun _ => Some (service_error_text (exn_str e)))
          | _ =>
              log ERROR ("Произошла непредвиденная ошибка при обработке аудио: " +:+ exn_str e) ;;
              set_locals (fun _ => Some audio_error_text)
          end))
    (try_except
       (os_remove env file_path ;;
        log DEBUG ("Временный файл удален: " +:+ file_path))
       (fun e =>
          match e with
          | OSError _ =>
              log WARNING ("Не удалось удалить временный файл " +:+ file_path +:+ ": " +:+ exn_str e)
          | _ => raise e
          end)) ;;
  text <- get_locals ;;
  return_ text.

(** *** [handle_media] (lines 85-160) *)

Record Voice : Type := mkVoice { voice_file_id : string }.
Record VideoNote : Type := mkVideoNote { video_note_file_id : string }.

Record Message : Type := mkMessage {
  voice : option Voice;
  video_note : option VideoNote
}.

(** The fields of the update that the handler reads.  The sender and the
    chat are those of the message; they are present whenever the message
    is. *)
Record Update : Type := mkUpdate {
  message : option Message;
  effective_user_id : Z;      (* update.effective_user.id *)
  effective_chat_id : Z       (* update.effective_chat.id *)
}.

(** The locals that are read after the branch that binds them. *)
Record Locals : Type := mkLocals {
  temp_file_path : option string;
  original_media_path : option string;
  media_file : option string;
  source_format : option string
}.

Definition no_locals : Locals := mkLocals None None None None.

(** [f"{prefix}_{user_id}_{int(time.time())}"]; [pretty] prints an integer
    as [str] does. *)
Definition base_name (prefix : string) (user_id timestamp : Z) : string :=
  prefix +:+ "_" +:+ pretty user_id +:+ "_" +:+ pretty timestamp.

(** [os.path.join(TEMP_MEDIA_DIR, f"{base_name}{suffix}")]. *)
Definition artifact_path (prefix : string) (user_id timestamp : Z) (suffix : string) : string :=
  os_path_join TEMP_MEDIA_DIR (base_name prefix user_id timestamp +:+ suffix).

(** The assignments of lines 114-118 and 122-126. *)
Definition bind_media (file : string) (prefix : string) (user_id timestamp : Z)
    (suffix format : string) (_ : Locals) : Locals :=
  mkLocals (Some (artifact_path prefix user_id timestamp ".wav"))
           (Some (artifact_path prefix user_id timestamp suffix))
           (Some file)
           (Some format).

Definition acknowledged_text : string := "🎙️ Получил, начинаю расшифровку...".
Definition converting_text : string := "⏳ Конвертирую аудио...".
Definition failure_text : string := "❌ Произошла ошибка при обработке файла.".
Definition recognizing_text : string := "🧠 Распознаю речь...".
Definition fallback_text : string := "Не удалось получить результат распознавания.".

(** The text of line 157: two line feeds, then the result. *)
Definition result_text (transcribed_text : option string) : string :=
  LF +:+ LF +:+ default "None" transcribed_text.

Definition convert_sync (env : Env) : Stmt Locals unit unit :=
  l <- get_locals ;;
  src <- bound (original_media_path l) "expected str, not NoneType" ;;
  fmt <- bound (source_format l) "source_format is not bound" ;;
  from_file env src fmt ;;
  dst <- bound (temp_file_path l) "expected str, not NoneType" ;;
  export env dst "wav".

Definition handle_media (env : Env) (update : Update) : Stmt Locals unit unit :=
  match message update with
  | None => return_ tt
  | Some msg =>
    let user_id := effective_user_id update in
    let chat_id := effective_chat_id update in
    let is_voice := bool_decide (is_Some (voice msg)) in
    let is_video_note := bool_decide (is_Some (video_note msg)) in
    (if negb (is_voice || is_video_note) then return_ tt else pass) ;;
    send_status env Acknowledge acknowledged_text None ;;
    set_locals (fun _ => no_locals) ;;
    try_finally
      (try_except
         (os_makedirs env TEMP_MEDIA_DIR ;;
          match voice msg, video_note msg with
          | Some v, _ =>
              send_chat_action env chat_id RECORD_VOICE ;;
              file <- get_file env (voice_file_id v) ;;
              set_locals (bind_media file "voice" user_id (now env) ".oga" "ogg")
          | None, Some vn =>
              send_chat_action env chat_id RECORD_VIDEO ;;
              file <- get_file env (video_note_file_id vn) ;;
              set_locals (bind_media file "vnote" user_id (now env) ".mp4" "mp4")
          | None, None => pass
          end ;;
          l <- get_locals ;;
          file <- bound (media_file l) "media_file is not bound" ;;
          src <- bound (original_media_path l) "expected str, not NoneType" ;;
          download_to_drive env file src ;;
          log INFO ("Файл скачан: " +:+ src) ;;
          send_status env EditConverting converting_text None ;;
          convert_sync env ;;
          log INFO ("Файл сконвертирован в " +:+ default "None" (temp_file_path l)))
         (fun e =>
            log ERROR ("Ошибка на этапе скачивания или конвертации: " +:+ exn_str e) ;;
            send_status env EditFailure failure_text None ;;
            return_ tt))
      (l <- get_locals ;;
       if truthy (original_media_path l) then
         path <- bound (original_media_path l) "expected str, not NoneType" ;;
         present <- os_path_exists path ;;
         if present : bool then os_remove env path else pass
       else pass) ;;
    send_status env EditRecognizing recognizing_text None ;;
    l <- get_locals ;;
    wav <- bound (temp_file_path l) "expected str, not NoneType" ;;
    transcribed_text <- call None (transcribe_voice env wav) None ;;
    if truthy transcribed_text
    then send_status env EditResult (result_text transcribed_text) (Some "Markdown")
    else send_status env EditFallback fallback_text None
  end.

(** What the dispatcher sees of a request: how [handle_media] ended and the
    world it leaves. *)
Definition handle (env : Env) (update : Update) (w : World) : (exn + unit) * World :=
  run tt (handle_media env update) no_locals w.

(** What a caller of [transcribe_voice] sees. *)
Definition transcribe (env : Env) (file_path : string) (w : World) : (exn + option string) * World :=
  run None (transcribe_voice env file_path) None w.

(** ** Observations on a run *)

(** A request that starts with the files [fs] on storage. *)
Definition start (fs : gset string) : World := mkWorld fs [].

Definition status_site (ev : Event) : option Site :=
  match ev with
  | EvStatus site _ _ => Some site
  | _ => None
  end.

Definition status_text (ev : Event) : option string :=
  match ev with
  | EvStatus _ text _ => Some text
  | _ => None
  end.

Definition recognized_path (ev : Event) : option string :=
  match ev with
  | EvRecognize path _ => Some path
  | _ => None
  end.

Definition removed_path (ev : Event) : option string :=
  match ev with
  | EvRemove path => Some path
  | _ => None
  end.

Definition is_log (ev : Event) : bool :=
  match ev with
  | EvLog _ _ => true
  | _ => false
  end.

(** The status operations of a trace, by call site and by text. *)
Definition status_sites (tr : list Event) : list Site := omap status_site tr.
Definition status_texts (tr : list Event) : list string := omap status_text tr.

(** The recognition calls and the deletions of a trace. *)
Definition recognize_calls (tr : list Event) : list string := omap recognized_path tr.
Definition removals (tr : list Event) : list string := omap removed_path tr.

(** The terminal reports are the failure text, the rendered result and the
    fallback; the other status operations are phase reports. *)
Definition is_terminal (site : Site) : bool :=
  match site with
  | EditFailure | EditResult | EditFallback => true
  | Acknowledge | EditConverting | EditRecognizing => false
  end.

Definition terminal_reports (tr : list Event) : nat :=
  length (List.filter is_terminal (status_sites tr)).

(** The text of the last status operation of a trace. *)
Definition final_status_text (tr : list Event) : option string := last (status_texts tr).

(** The events that are eligible for the pipeline. *)
Definition accepted (update : Update) : Prop :=
  exists msg, message update = Some msg /\ (is_Some (voice msg) \/ is_Some (video_note msg)).

#[global] Instance accepted_dec update : Decision (accepted update).
Proof.
  unfold accepted. destruct (message update) as [msg|].
  - destruct (decide (is_Some (voice msg) \/ is_Some (video_note msg))) as [Hkind|Hkind].
    + left. eauto.
    + right. intros (m & [= <-] & Hm). done.
  - right. intros (m & [=] & _).
Defined.

(** The two media kinds, as the prefix and the suffix of their source
    artifact. *)
Definition media_kinds : list (string * string) := [("voice", ".oga"); ("vnote", ".mp4")].

(** The storage keys of a request: source artifact and canonical artifact. *)
Definition artifact_keys (kind : string * string) (user_id timestamp : Z) : list string :=
  [artifact_path kind.1 user_id timestamp kind.2; artifact_path kind.1 user_id timestamp ".wav"].

(** Environments and events to run the handler on: every collaborator
    answers, and the provider answers [answer]; optionally one status
    operation raises. *)
Definition cooperative (answer : exn + string) : Env :=
  mkEnv 1700000000 (fun _ => None) None None None Written None Written answer
        (fun _ => None).

Definition status_down (site : Site) (answer : exn + string) : Env :=
  mkEnv 1700000000
        (fun s => if decide (s = site) then Some (TelegramError "Timed out") else None)
        None None None Written None Written answer (fun _ => None).

Definition voice_update : Update :=
  mkUpdate (Some (mkMessage (Some (mkVoice "file-1")) None)) 42 7.

Definition text_update : Update :=
  mkUpdate (Some (mkMessage None None)) 42 7.

(** What a call made for the payload [file] of the kind [(prefix, suffix)]
    looks like. *)
Definition addressed (env : Env) (update : Update) (file prefix suffix format : string)
    (action : ChatAction) (ev : Event) : Prop :=
  let source := artifact_path prefix (effective_user_id update) (now env) suffix in
  let canonical := artifact_path prefix (effective_user_id update) (now env) ".wav" in
  match ev with
  | EvChatAction chat_id a => chat_id = effective_chat_id update /\ a = action
  | EvGetFile file_id => file_id = file
  | EvDownload file_id path => file_id = file /\ path = source
  | EvFromFile path fmt => path = source /\ fmt = format
  | EvExport path fmt => path = canonical /\ fmt = "wav"
  | EvRecognize path language => path = canonical /\ language = "ru-RU"
  | EvRemove path => path = source \/ path = canonical
  | EvMakedirs path => path = "temp_media"
  | EvStatus _ _ _ | EvLog _ _ => True
  end.

(** One environment more: every collaborator answers, but [os.remove]
    raises on every file. *)
Definition remove_down (answer : exn + string) : Env :=
  mkEnv 1700000000 (fun _ => None) None None None Written None Written answer
        (fun _ => Some "[Errno 13] Permission denied").

(** The media kind that lines 112-126 choose for an update, as the prefix
    and the suffix of its source artifact: a voice payload goes first;
    [None] for an event that is not eligible. *)
Definition request_kind (update : Update) : option (string * string) :=
  match message update with
  | None => None
  | Some msg =>
      match voice msg, video_note msg with
      | Some _, _ => Some ("voice", ".oga")
      | None, Some _ => Some ("vnote", ".mp4")
      | None, None => None
      end
  end.

(** The two keys of a request of the kind [kind]. *)
Definition source_key (env : Env) (update : Update) (kind : string * string) : string :=
  artifact_path kind.1 (effective_user_id update) (now env) kind.2.

Definition canonical_key (env : Env) (update : Update) (kind : string * string) : string :=
  artifact_path kind.1 (effective_user_id update) (now env) ".wav".

(** The exception of a call that writes a file. *)
Definition write_fault (res : WriteResult) : option exn :=
  match res with
  | Written => None
  | WriteFailed e _ => Some e
  end.

(** The steps of the download and convert stage in the order of lines
    110-139, each with the exception it raises when it fails, and the first
    of these exceptions: the one that the [except] clause of line 142 is
    entered with. *)
Definition stage_faults (env : Env) : list (option exn) :=
  [ makedirs_fault env; chat_action_fault env; get_file_fault env;
    write_fault (download_result env); status_fault env EditConverting;
    from_file_fault env; write_fault (export_result env) ].

Definition stage_failure (env : Env) : option exn := head (omap id (stage_faults env)).

(** The message of the [OSError] of the first deletion of a trace, when that
    deletion raised.  In a request the first deletion is the one of the
    [finally] block (line 149); the one of the recognizer comes after it. *)
Definition finally_fault (env : Env) (tr : list Event) : option string :=
  match head (removals tr) with
  | Some path => remove_fault env path
  | None => None
  end.

(** The separator of the f-strings of lines 115 and 123. *)
Definition sep : ascii := "_"%char.

(** [c] occurs in [s]. *)
Fixpoint occurs (c : ascii) (s : string) : Prop :=
  match s with
  | EmptyString => False
  | String c' rest => c = c' \/ occurs c rest
  end.

(** * Properties *)

(** ** Storage keys *)

Lemma append_cons x (a b : string) : String x a +:+ b = String x (a +:+ b).
Proof. reflexivity. Qed.

Lemma append_assoc (a b c : string) : (a +:+ b) +:+ c = a +:+ b +:+ c.
Proof. induction a as [|x a IH]; [done | by rewrite !append_cons, IH]. Qed.

Lemma digit_not_sep x : pretty_N_char x <> sep.
Proof. unfold pretty_N_char. repeat case_match; discriminate. Qed.

Lemma pretty_N_go_sep x s : occurs sep (pretty_N_go x s) -> occurs sep s.
Proof.
  revert s. induction (N.lt_wf_0 x) as [x _ IH]; intros s.
  destruct (decide (x = 0%N)) as [->|Hx]; [done|].
  rewrite pretty_N_go_step by lia. intros Hocc.
  apply IH in Hocc; [|apply N.div_lt; lia].
  destruct Hocc as [Heq|Hocc]; [|done].
  symmetry in Heq. by apply digit_not_sep in Heq.
Qed.

Lemma pretty_N_sep (x : N) : ~ occurs sep (pretty x).
Proof.
  unfold pretty, pretty_N. case_decide.
  - simpl. intros [Heq|[]]. discriminate.
  - intros Hocc. by apply pretty_N_go_sep in Hocc.
Qed.

(** The decimal form of an integer has no separator in it. *)
Lemma pretty_Z_sep (z : Z) : ~ occurs sep (pretty z).
Proof.
  destruct z as [|p|p]; unfold pretty, pretty_Z.
  - simpl. intros [Heq|[]]. discriminate.
  - apply (pretty_N_sep (Npos p)).
  - simpl. intros [Heq|Hocc]; [discriminate|].
    by apply (pretty_N_sep (Npos p)).
Qed.

(** A string is cut at its first separator in one way only. *)
Lemma cut_unique c a a' b b' :
  ~ occurs c a -> ~ occurs c a' ->
  a +:+ String c b = a' +:+ String c b' -> a = a' /\ b = b'.
Proof.
  revert a'. induction a as [|x a IH]; intros [|x' a'] Ha Ha'; simpl in *.
  - by intros [= ->].
  - intros [= <- _]. tauto.
  - intros [= -> _]. tauto.
  - intros [= -> Heq]. apply IH in Heq as [-> ->]; tauto.
Qed.

(** The path of an artifact, spelled out. *)
Lemma artifact_path_unfold prefix u t suffix :
  starts_with_sep prefix = false ->
  artifact_path prefix u t suffix
  = "temp_media/" +:+ prefix +:+ "_" +:+ pretty u +:+ "_" +:+ pretty t +:+ suffix.
Proof.
  intros Hprefix. unfold artifact_path, base_name, os_path_join.
  rewrite !append_assoc.
  replace (starts_with_sep _) with false by (by destruct prefix).
  reflexivity.
Qed.

(** Two keys of one shape that are equal belong to one requester. *)
Lemma key_user (u u' t t' : Z) (suffix suffix' : string) :
  pretty u +:+ "_" +:+ pretty t +:+ suffix = pretty u' +:+ "_" +:+ pretty t' +:+ suffix' ->
  u = u'.
Proof.
  intros Heq. apply cut_unique in Heq as [Heq _]; [|apply pretty_Z_sep..].
  by apply (inj pretty) in Heq.
Qed.

(** The source artifact and the canonical artifact of a request have
    different paths. *)
Lemma source_is_not_canonical prefix u t suffix :
  suffix <> ".wav" ->
  artifact_path prefix u t suffix <> artifact_path prefix u t ".wav".
Proof.
  intros Hsuffix. unfold artifact_path, os_path_join.
  assert (forall x, starts_with_sep (base_name prefix u t +:+ x)
                    = starts_with_sep (prefix +:+ "_")) as Hsep
    by (intros x; unfold base_name; by destruct prefix).
  rewrite !Hsep.
  destruct (starts_with_sep _); [|destruct (_ || _)]; intros Heq;
    repeat apply (inj (String.app _)) in Heq; done.
Qed.


(** The keys of a request are the two paths that lines 116-117 and 124-125
    bind. *)
Lemma bind_media_keys file kind user_id timestamp format l :
  let l' := bind_media file kind.1 user_id timestamp kind.2 format l in
  [original_media_path l'; temp_file_path l'] = Some <$> artifact_keys kind user_id timestamp.
Proof. reflexivity. Qed.

(** C9. Requests of two different requesters never share a storage key:
    whatever their media kinds and their timestamps, each key of the one
    (source or canonical artifact) differs from each key of the other. *)
Theorem artifact_keys_distinct kind1 kind2 (u1 u2 t1 t2 : Z) key1 key2 :
  kind1 ∈ media_kinds -> kind2 ∈ media_kinds ->
  u1 <> u2 ->
  key1 ∈ artifact_keys kind1 u1 t1 ->
  key2 ∈ artifact_keys kind2 u2 t2 ->
  key1 <> key2.
Proof.
  unfold media_kinds, artifact_keys. intros Hk1 Hk2 Hu Hkey1 Hkey2 Heq.
  apply Hu.
  repeat match goal with
         | H : _ ∈ _ :: _ |- _ => apply elem_of_cons in H as [->|H]
         | H : _ ∈ [] |- _ => by apply elem_of_nil in H
         end;
    rewrite !artifact_path_unfold in Heq by done;
    rewrite !append_cons in Heq; simplify_eq; eauto using key_user.
Qed.

Lemma artifact_keys_distinct_witness :
  "temp_media/voice_1_23.wav" <> "temp_media/vnote_12_3.mp4"
  /\ "temp_media/voice_1_23.oga" <> "temp_media/voice_12_3.wav".
Proof.
  split.
  - apply (artifact_keys_distinct ("voice", ".oga") ("vnote", ".mp4") 1 12 23 3);
      [set_solver | set_solver | lia | vm_compute; set_solver | vm_compute; set_solver].
  - apply (artifact_keys_distinct ("voice", ".oga") ("voice", ".oga") 1 12 23 3);
      [set_solver | set_solver | lia | vm_compute; set_solver | vm_compute; set_solver].
Defined.

(** ** Running statements symbolically *)

Lemma truthy_cons c s : truthy (Some (String c s)) = true.
Proof. unfold truthy. by rewrite bool_decide_eq_false_2. Qed.

Lemma truthy_artifact_path prefix u t suffix :
  truthy (Some (artifact_path prefix u t suffix)) = true.
Proof.
  unfold artifact_path, os_path_join, TEMP_MEDIA_DIR.
  destruct (starts_with_sep _) eqn:Hsep.
  - destruct (_ +:+ suffix); [done | apply truthy_cons].
  - apply truthy_cons.
Qed.

Lemma truthy_service_error detail : truthy (Some (service_error_text detail)) = true.
Proof. apply truthy_cons. Qed.

Lemma truthy_Some text : truthy (Some text) = true <-> text <> "".
Proof.
  unfold truthy. case_bool_decide; simpl; naive_solver.
Qed.

#[local] Arguments truthy : simpl never.
#[local] Arguments artifact_path : simpl never.
#[local] Arguments service_error_text : simpl never.

Ltac unfold_stmt :=
  unfold handle, transcribe, handle_media, convert_sync, transcribe_voice;
  unfold send_status, send_chat_action, get_file, download_to_drive, from_file,
    export, os_makedirs, os_remove, recognize_sync, write_file, log;
  unfold run, call, try_finally, try_except, bind, os_path_exists, create_file,
    emit, fault, bound, set_locals, get_locals, return_, raise, pass, pure,
    bind_media, no_locals, start.

Ltac app_head t :=
  lazymatch t with
  | ?f _ => app_head f
  | _ => t
  end.

(** The term that the evaluation of [t] waits for. *)
Ltac stuck t :=
  lazymatch t with
  | match ?x with _ => _ end => stuck x
  | negb ?b => stuck b
  | orb ?b _ => stuck b
  | andb ?b _ => stuck b
  | _ =>
      let h := app_head t in
      lazymatch h with
      | match ?x with _ => _ end => stuck x
      | _ => t
      end
  end.

(** Whether a path is among the files, when the context tells. *)
Ltac is_in :=
  solve [ assumption
        | apply elem_of_singleton_2; reflexivity
        | apply elem_of_union_l; is_in
        | apply elem_of_union_r; is_in
        | apply elem_of_difference; split; [is_in | is_out] ]
with is_out :=
  solve [ assumption
        | apply not_elem_of_singleton_2; first [assumption | apply not_eq_sym; assumption]
        | apply not_elem_of_union; split; is_out
        | let Hin := fresh in
          let Hout := fresh in
          intros Hin; apply elem_of_difference in Hin as [Hin Hout];
          first [ apply Hout; is_in
                | revert Hin; change (?x ∈ ?X -> False) with (x ∉ X); is_out ] ].

Ltac in_files := first [is_in | is_out].

(** One step of a run [c = r -> _]: decide what the run waits for, from the
    context when it is known there and by cases otherwise. *)
Ltac step :=
  lazymatch goal with
  | |- match ?x with _ => _ end = _ -> _ =>
      let s := stuck x in
      lazymatch s with
      | bool_decide ?P =>
          first [ rewrite (bool_decide_eq_true_2 P) by in_files
                | rewrite (bool_decide_eq_false_2 P) by in_files
                | destruct (bool_decide_reflect P) ]
      | truthy None => change (truthy None) with false
      | truthy (Some (artifact_path _ _ _ _)) => rewrite truthy_artifact_path
      | truthy (Some (service_error_text _)) => rewrite truthy_service_error
      | truthy (Some (String _ _)) => rewrite truthy_cons
      | truthy (Some no_speech_text) => change (truthy (Some no_speech_text)) with true
      | truthy (Some audio_error_text) => change (truthy (Some audio_error_text)) with true
      | truthy (Some file_not_found_text) => change (truthy (Some file_not_found_text)) with true
      | _ => destruct s eqn:?
      end
  end.

Ltac explore := unfold_stmt; cbn; repeat (step; cbn).

(** Membership in a list that is written out: a member that is found, a
    hypothesis of membership that no element meets, or what the two leave. *)
Ltac in_list :=
  first
    [ solve [repeat first [apply list_elem_of_here | apply list_elem_of_further]]
    | match goal with
      | H : _ ∈ _ |- _ =>
          solve [ repeat (apply elem_of_cons in H as [H|H]; [discriminate H|]);
                  by apply elem_of_nil in H ]
      end
    | rewrite ?elem_of_cons, ?elem_of_nil in *;
      solve [intuition (discriminate || congruence)] ].

(** Replace the runs on closed inputs by their values. *)
Ltac evaluate :=
  repeat match goal with
         | |- context [handle ?env ?update ?w] =>
             let r := eval vm_compute in (handle env update w) in
             change (handle env update w) with r
         | |- context [transcribe ?env ?p ?w] =>
             let r := eval vm_compute in (transcribe env p w) in
             change (transcribe env p w) with r
         end;
  cbn.

(** Name the result of a run and explore the paths that lead to it. *)
Ltac run_cases c res w' :=
  let r := fresh "r" in
  let Hrun := fresh "Hrun" in
  remember c as r eqn:Hrun; symmetry in Hrun; revert Hrun; explore; intros <-; cbn.

(** ** The recognizer stage *)

(** C2. When the recognition call is made, its outcome decides the one
    result of the stage: the transcript itself; the fixed no-speech marker
    for [sr.UnknownValueError]; the service-error marker with the detail in
    it for [sr.RequestError]; and for any other exception the fixed
    processing-error marker, the detail going to the log only. *)
Theorem provider_outcome_mapping env p fs :
  p ∈ fs ->
  let r := transcribe env p (start fs) in
  match recognize_result env with
  | inr text => r.1 = inr (Some text)
  | inl UnknownValueError => r.1 = inr (Some "[Речь не распознана]")
  | inl (RequestError detail) =>
      r.1 = inr (Some ("[Ошибка сервиса распознавания: " +:+ detail +:+ "]"))
  | inl e =>
      r.1 = inr (Some "[Ошибка обработки аудио]")
      /\ EvLog ERROR ("Произошла непредвиденная ошибка при обработке аудио: " +:+ exn_str e)
           ∈ trace r.2
  end.
Proof.
  intros Hp. cbv zeta.
  run_cases (transcribe env p (start fs)) res w'; try done.
  all: split; [done | set_solver].
Qed.

Lemma provider_outcome_mapping_witness :
  (transcribe (cooperative (inl (RequestError "quota exceeded"))) "a.wav" (start {[ "a.wav" ]})).1
  = inr (Some "[Ошибка сервиса распознавания: quota exceeded]").
Proof.
  apply (provider_outcome_mapping (cooperative (inl (RequestError "quota exceeded")))
           "a.wav" {[ "a.wav" ]}).
  set_solver.
Defined.

(** C7. When the canonical artifact does not exist at the call, the stage
    returns its file-not-found error text and the provider is never
    called. *)
Theorem missing_artifact_skips_provider env p fs :
  p ∉ fs ->
  let r := transcribe env p (start fs) in
  r.1 = inr (Some "[Ошибка: Внутренняя ошибка, файл не найден]")
  /\ recognize_calls (trace r.2) = [].
Proof.
  intros Hp. cbv zeta.
  run_cases (transcribe env p (start fs)) res w'. done.
Qed.

Lemma missing_artifact_skips_provider_witness :
  let r := transcribe (cooperative (inr "hello world")) "a.wav" (start ∅) in
  r.1 = inr (Some "[Ошибка: Внутренняя ошибка, файл не найден]")
  /\ recognize_calls (trace r.2) = [].
Proof.
  apply (missing_artifact_skips_provider (cooperative (inr "hello world")) "a.wav" ∅).
  set_solver.
Defined.

(** C6, as the code has it.  When the artifact exists at the call, one
    deletion of it is attempted on every branch (transcript, no speech,
    provider failure, unexpected fault), after the recognition call and
    before the stage returns, with nothing but logging around the two; when
    the artifact is missing at the call, the stage returns at once and
    attempts no deletion. *)
Theorem deletion_follows_recognition env p fs :
  let tr := trace (transcribe env p (start fs)).2 in
  (p ∈ fs ->
   exists before between after,
     tr = before ++ EvRecognize p "ru-RU" :: between ++ EvRemove p :: after
     /\ Forall (fun ev => is_log ev) (before ++ between ++ after))
  /\ (p ∉ fs -> removals tr = []).
Proof.
  cbv zeta. destruct (decide (p ∈ fs)) as [Hp|Hp].
  - split; [intros _ | done].
    run_cases (transcribe env p (start fs)) res w'.
    all: eexists [_], [_], [_]; split; [reflexivity | by repeat constructor].
  - split; [done | intros _].
    run_cases (transcribe env p (start fs)) res w'. done.
Qed.

Lemma deletion_follows_recognition_witness :
  exists before between after,
    trace (transcribe (cooperative (inl UnknownValueError)) "a.wav" (start {[ "a.wav" ]})).2
    = before ++ EvRecognize "a.wav" "ru-RU" :: between ++ EvRemove "a.wav" :: after
    /\ Forall (fun ev => is_log ev) (before ++ between ++ after).
Proof.
  apply (deletion_follows_recognition (cooperative (inl UnknownValueError))
           "a.wav" {[ "a.wav" ]}).
  set_solver.
Defined.

(** C6 as stated fails on the branch where the artifact is missing at entry:
    no deletion is attempted there. *)
Lemma missing_artifact_no_deletion_attempt :
  let r := transcribe (cooperative (inr "hello world")) "a.wav" (start ∅) in
  r.1 = inr (Some file_not_found_text) /\ removals (trace r.2) = [].
Proof. vm_compute. done. Qed.

(** ** The handler *)

(** C8. An event without a message, or whose message carries neither a voice
    nor a video note, makes the handler return with the world as it was:
    nothing downloaded, no status sent or edited, no path bound and no file
    created. *)
Theorem ineligible_event_is_ignored env update w :
  ~ accepted update ->
  handle env update w = (inr tt, w).
Proof.
  intros Hskip. unfold handle, handle_media.
  destruct (message update) as [msg|] eqn:Hmsg; [|done].
  destruct (voice msg) as [v|] eqn:Hv.
  { destruct Hskip. exists msg. rewrite Hv. eauto. }
  destruct (video_note msg) as [vn|] eqn:Hvn.
  { destruct Hskip. exists msg. rewrite Hvn. eauto. }
  done.
Qed.

Lemma ineligible_event_is_ignored_witness :
  handle (cooperative (inr "hello world")) text_update (start {[ "kept.txt" ]})
  = (inr tt, start {[ "kept.txt" ]}).
Proof.
  apply (ineligible_event_is_ignored (cooperative (inr "hello world")) text_update).
  intros (msg & [= <-] & [[? [=]]|[? [=]]]).
Defined.

(** The cases of a request started on the files [fs]. *)
Ltac request_cases env update fs res w' :=
  pose proof (source_is_not_canonical "voice" (effective_user_id update) (now env) ".oga"
                ltac:(done));
  pose proof (source_is_not_canonical "vnote" (effective_user_id update) (now env) ".mp4"
                ltac:(done));
  run_cases (handle env update (start fs)) res w'.

(** C3, as the code has it.  After the acknowledgment, a request never makes
    two terminal reports, and it makes none on two paths only, both after a
    conversion that succeeded: the [os.remove] of the [finally] block (line
    149) raises, or the edit that announces the recognition phase (line 152)
    is reached and raises.  The handler is left there, before the recognizer
    and the final edit. *)
Theorem at_most_one_terminal_report env update fs :
  accepted update ->
  status_fault env Acknowledge = None ->
  let tr := trace (handle env update (start fs)).2 in
  terminal_reports tr <= 1
  /\ (terminal_reports tr = 0 <->
      (EditRecognizing ∈ status_sites tr /\ status_fault env EditRecognizing <> None)
      \/ ((EditFailure ∉ status_sites tr) /\ finally_fault env tr <> None)).
Proof.
  intros (msg & Hmsg & Hkind) Hack. cbv zeta. unfold finally_fault.
  request_cases env update fs res w'.
  all: try congruence.
  all: try match goal with H : is_Some None |- _ => by destruct H end.
  all: try (by injection Hmsg as ->; destruct Hkind).
  all: repeat match goal with H : remove_fault _ _ = _ |- _ => rewrite H end.
  all: split; [lia|].
  all: split;
    [ intros Hzero;
      first [ discriminate Hzero
            | left; split; [in_list | congruence]
            | right; split; [in_list | congruence] ]
    | intros [[Hin Hfault]|[Hin Hfault]];
      first [ reflexivity
            | exfalso; first [by apply Hfault | by apply Hin; in_list | in_list] ] ].
Qed.

(** C3 as stated fails: when the edit of line 152 raises, the request ends
    with the acknowledgment and the two phase reports only. *)
Lemma no_terminal_report_when_phase_edit_raises :
  let r := handle (status_down EditRecognizing (inr "hello world")) voice_update (start ∅) in
  status_sites (trace r.2) = [Acknowledge; EditConverting; EditRecognizing]
  /\ terminal_reports (trace r.2) = 0.
Proof. vm_compute. done. Qed.

Lemma at_most_one_terminal_report_witness :
  terminal_reports (trace (handle (cooperative (inr "hello world")) voice_update (start ∅)).2) <= 1.
Proof.
  apply (at_most_one_terminal_report (cooperative (inr "hello world")) voice_update ∅).
  - exists (mkMessage (Some (mkVoice "file-1")) None). split; [reflexivity | left; eauto].
  - reflexivity.
Defined.

(** C4, as the code has it.  When the provider is called and answers a
    transcript, the last status operation of the request is the edit of line
    157, and its text is two line feeds followed by the transcript, sent with
    the Markdown parse mode. *)
Theorem final_status_is_prefixed_transcript env update fs text :
  recognize_result env = inr text ->
  text <> "" ->
  let tr := trace (handle env update (start fs)).2 in
  recognize_calls tr <> [] ->
  final_status_text tr = Some (LF +:+ LF +:+ text)
  /\ EvStatus EditResult (LF +:+ LF +:+ text) (Some "Markdown") ∈ tr.
Proof.
  intros Hanswer Htext. cbv zeta.
  request_cases env update fs res w'.
  all: try done.
  all: simplify_eq.
  all: try match goal with H : truthy (Some _) = false |- _ =>
             apply not_true_iff_false in H; rewrite truthy_Some in H; by destruct H
           end.
  all: intros _; split; [reflexivity | in_list].
Qed.

Lemma final_status_is_prefixed_transcript_witness :
  final_status_text (trace (handle (cooperative (inr "hello world")) voice_update (start ∅)).2)
  = Some (LF +:+ LF +:+ "hello world").
Proof.
  apply (final_status_is_prefixed_transcript (cooperative (inr "hello world"))
           voice_update ∅ "hello world"); [reflexivity | done | vm_compute; done].
Defined.

(** C4 as stated fails: for the transcript "hello world" the final status
    text is not that string. *)
Lemma hello_world_is_not_sent_verbatim :
  let r := handle (cooperative (inr "hello world")) voice_update (start ∅) in
  r.1 = inr tt /\ final_status_text (trace r.2) <> Some "hello world".
Proof. vm_compute. split; [done | discriminate]. Qed.

(** C5, as the code has it.  No status operation is made twice.  A fault of
    the edit that announces the conversion is caught with the faults of the
    download and convert stage: the failure report follows and the
    recognizer is not called.  A fault of any other status operation that is
    made leaves the handler: the acknowledgment, the edit that announces the
    recognition and the final edit as their own exception, and so does the
    failure report, unless the [os.remove] of the [finally] block, which
    runs after it, raises in its turn and its [OSError] is what leaves the
    handler. *)
Theorem status_faults_propagate env update fs :
  let r := handle env update (start fs) in
  NoDup (status_sites (trace r.2))
  /\ forall site e,
       site ∈ status_sites (trace r.2) ->
       status_fault env site = Some e ->
       if decide (site = EditConverting)
       then EditFailure ∈ status_sites (trace r.2) /\ recognize_calls (trace r.2) = []
       else if decide (site = EditFailure)
       then r.1 = match finally_fault env (trace r.2) with
                  | Some msg => inl (OSError msg)
                  | None => inl e
                  end
       else r.1 = inl e.
Proof.
  cbv zeta. unfold finally_fault.
  request_cases env update fs res w'.
  all: repeat match goal with H : remove_fault _ _ = _ |- _ => rewrite H end.
  all: split; [by apply (bool_decide_unpack _)|].
  all: intros site e' Hin Hfault; rewrite ?elem_of_cons, ?elem_of_nil in Hin.
  all: repeat (destruct Hin as [->|Hin]); try done.
  all: repeat case_decide; try done; try congruence.
  all: split; [in_list | reflexivity].
Qed.

Lemma status_faults_propagate_witness :
  (handle (status_down EditResult (inr "hello world")) voice_update (start ∅)).1
  = inl (TelegramError "Timed out").
Proof.
  apply (proj2 (status_faults_propagate (status_down EditResult (inr "hello world"))
                  voice_update ∅) EditResult (TelegramError "Timed out")).
  - evaluate. in_list.
  - reflexivity.
Defined.

(** C5 as stated fails: the fault of the edit of line 152 leaves the handler
    as an exception, and the recognition stage is not run. *)
Lemma status_fault_leaves_the_handler :
  let r := handle (status_down EditRecognizing (inr "hello world")) voice_update (start ∅) in
  r.1 = inl (TelegramError "Timed out") /\ recognize_calls (trace r.2) = [].
Proof. vm_compute. done. Qed.

(** C10, as the code has it.  The recognizer stage never returns [None]: it
    returns a text on every branch.  On the success branch the text is the
    transcript of the provider, unchanged; on the other branches it is a
    fixed text that is not empty.  So the text is empty exactly when the
    recognition call was made and answered the empty transcript, and the
    handler makes its fallback report exactly in that case. *)
Theorem recognizer_returns_text env :
  (forall p fs,
     exists text,
       (transcribe env p (start fs)).1 = inr (Some text)
       /\ (forall transcript,
             p ∈ fs -> recognize_result env = inr transcript -> text = transcript)
       /\ (text = "" <-> p ∈ fs /\ recognize_result env = inr ""))
  /\ (forall update fs,
        let tr := trace (handle env update (start fs)).2 in
        EditFallback ∈ status_sites tr
        <-> recognize_calls tr <> [] /\ recognize_result env = inr "").
Proof.
  split.
  - intros p fs.
    run_cases (transcribe env p (start fs)) res w'.
    all: eexists; split; [reflexivity|].
    all: split; [intros transcript Hp Hanswer; first [done | congruence]|].
    all: split; [intros Hempty; first [discriminate Hempty | by subst] |].
    all: intros [Hp Hanswer]; first [done | congruence].
  - intros update fs. cbv zeta.
    request_cases env update fs res w'.
    all: try match goal with H : is_Some None |- _ => by destruct H end.
    all: split;
      [ intros Hin; first [ by exfalso; in_list | idtac ]
      | intros [Hcalled Hanswer]; first [ done | idtac ] ].
    all: try match goal with
             | H : truthy (Some ?t) = false |- _ =>
                 apply not_true_iff_false in H; rewrite truthy_Some in H;
                 apply dec_stable in H; subst t
             | H : truthy (Some ?t) = true |- _ =>
                 apply truthy_Some in H
             end.
    all: first [ by split | in_list | congruence ].
Qed.

Lemma recognizer_returns_text_witness :
  EditFallback
  ∈ status_sites (trace (handle (cooperative (inr "")) voice_update (start ∅)).2).
Proof.
  apply (proj2 (recognizer_returns_text (cooperative (inr ""))) voice_update ∅).
  split; [evaluate; done | reflexivity].
Defined.

(** C10 as stated fails: an empty transcript is returned as it is, and the
    handler then takes its fallback branch. *)
Lemma empty_transcript_reaches_fallback :
  (transcribe (cooperative (inr "")) "a.wav" (start {[ "a.wav" ]})).1 = inr (Some "")
  /\ EvStatus EditFallback fallback_text None
       ∈ trace (handle (cooperative (inr "")) voice_update (start ∅)).2.
Proof. evaluate. split; [done | in_list]. Qed.

(** ** Storage after a request *)

(** X1. What a request leaves on storage.  A file that is there after the
    request and was not there before is an artifact of the request: its
    canonical artifact, or its source artifact when the [os.remove] of that
    very file raises.  Nothing at all is left when [audio.export] does not
    fail with the file half written, the edit of line 152 does not raise and
    no deletion that is attempted raises. *)
Theorem storage_after_request env update fs :
  let r := handle env update (start fs) in
  (forall f, f ∈ files r.2 -> f ∉ fs ->
     match request_kind update with
     | Some kind =>
         f = canonical_key env update kind
         \/ (f = source_key env update kind /\ remove_fault env f <> None)
     | None => False
     end)
  /\ ((forall e, export_result env <> WriteFailed e true) ->
      status_fault env EditRecognizing = None ->
      (forall path, path ∈ removals (trace r.2) -> remove_fault env path = None) ->
      files r.2 ⊆ fs).
Proof.
  cbv zeta. unfold request_kind, canonical_key, source_key.
  request_cases env update fs res w'.
  all: try match goal with H : is_Some None |- _ => by destruct H end.
  all: split;
    [ intros f Hf Hnew;
      rewrite ?elem_of_difference, ?elem_of_union, ?elem_of_singleton in Hf;
      first [done | intuition (subst; first [by left | right; split; [done | congruence] | done])]
    | intros Hexport Hedit Hremove; try congruence;
      try (match type of Hexport with
           | forall e, WriteFailed ?e0 true <> _ => by destruct (Hexport e0)
           end);
      try (match goal with
           | H : remove_fault _ ?p = Some _ |- _ =>
               rewrite (Hremove p) in H by in_list; discriminate H
           end);
      intros f;
      rewrite ?elem_of_difference, ?elem_of_union, ?elem_of_singleton;
      intuition congruence ].
Qed.

Lemma storage_after_request_witness :
  files (handle (cooperative (inl (RequestError "quota exceeded"))) voice_update
           (start {[ "kept.txt" ]})).2 ⊆ {[ "kept.txt" ]}.
Proof.
  apply (proj2 (storage_after_request (cooperative (inl (RequestError "quota exceeded")))
                  voice_update {[ "kept.txt" ]})).
  - intros e. discriminate.
  - reflexivity.
  - reflexivity.
Defined.

(** The run that the [finally] block cuts short: the conversion succeeds
    and the [os.remove] of line 149 raises.  The [OSError] leaves the
    handler after the two phase reports, the recognizer is not called and
    both artifacts stay. *)
Lemma source_deletion_fault_leaves_the_handler :
  let r := handle (remove_down (inr "hello world")) voice_update (start ∅) in
  r.1 = inl (OSError "[Errno 13] Permission denied")
  /\ status_sites (trace r.2) = [Acknowledge; EditConverting]
  /\ recognize_calls (trace r.2) = []
  /\ elements (files r.2)
     = ["temp_media/voice_42_1700000000.oga"; "temp_media/voice_42_1700000000.wav"].
Proof. vm_compute. done. Qed.

(** C1 against the code.  The conversion succeeds and the edit of line 152
    raises: the exception leaves the handler, the recognizer stage that was
    to delete the canonical artifact is never called, and the artifact stays
    on storage (the source artifact is removed by the [finally] block). *)
Theorem canonical_artifact_outlives_interrupted_request :
  let r := handle (status_down EditRecognizing (inr "hello world")) voice_update (start ∅) in
  r.1 = inl (TelegramError "Timed out")
  /\ recognize_calls (trace r.2) = []
  /\ removals (trace r.2) = ["temp_media/voice_42_1700000000.oga"]
  /\ elements (files r.2) = ["temp_media/voice_42_1700000000.wav"].
Proof. vm_compute. done. Qed.

(** * Further properties of the pipeline *)

(** ** Storage *)

(** X3. The recognizer stage changes no file but its own.  It leaves the
    storage without that file when the deletion works, and as it was when
    [os.remove] raises: the failure is logged as a warning and the stage
    returns all the same. *)
Theorem transcribe_storage env p fs :
  let r := transcribe env p (start fs) in
  files r.2 = match remove_fault env p with
              | Some _ => fs
              | None => fs ∖ {[ p ]}
              end
  /\ (forall msg,
        p ∈ fs -> remove_fault env p = Some msg ->
        EvLog WARNING ("Не удалось удалить временный файл " +:+ p +:+ ": " +:+ msg)
          ∈ trace r.2).
Proof.
  cbv zeta.
  run_cases (transcribe env p (start fs)) res w'.
  all: split;
    [ first [ reflexivity
            | destruct (remove_fault env p); [reflexivity|];
              apply set_eq; intros f; rewrite elem_of_difference, elem_of_singleton;
              intuition congruence ]
    | intros msg' Hp Hfault; first [done | simplify_eq; in_list ] ].
Qed.

Lemma transcribe_storage_witness :
  EvLog WARNING ("Не удалось удалить временный файл a.wav: [Errno 13] Permission denied")
  ∈ trace (transcribe (remove_down (inr "hello world")) "a.wav" (start {[ "a.wav" ]})).2.
Proof.
  apply (proj2 (transcribe_storage (remove_down (inr "hello world")) "a.wav" {[ "a.wav" ]})).
  - by apply elem_of_singleton.
  - reflexivity.
Defined.

(** X2. The handler touches no file but the two artifacts of the request:
    every path other than the source key and the canonical key of the
    request's own media kind is on storage after the request exactly when it
    was there before; an event that is not eligible changes no file. *)
Theorem other_files_untouched env update fs f :
  match request_kind update with
  | Some kind => f ∉ artifact_keys kind (effective_user_id update) (now env)
  | None => True
  end ->
  f ∈ files (handle env update (start fs)).2 <-> f ∈ fs.
Proof.
  intros Hother. unfold request_kind, artifact_keys in Hother. revert Hother.
  request_cases env update fs res w'.
  all: try match goal with H : is_Some None |- _ => by destruct H end.
  all: rewrite ?not_elem_of_cons; intros Hother.
  all: rewrite ?elem_of_difference, ?elem_of_union, ?elem_of_singleton; intuition congruence.
Qed.

Lemma other_files_untouched_witness :
  "temp_media/vnote_42_1700000000.wav"
  ∈ files (handle (cooperative (inr "hello world")) voice_update
             (start {[ "temp_media/vnote_42_1700000000.wav" ]})).2.
Proof.
  apply (other_files_untouched (cooperative (inr "hello world")) voice_update).
  - unfold request_kind, artifact_keys. simpl. rewrite !not_elem_of_cons.
    repeat split; [vm_compute; discriminate.. | apply not_elem_of_nil].
  - by apply elem_of_singleton.
Defined.

(** ** Control flow and status reports *)

(** X4. Two things only leave the handler as an exception: a fault of a
    status operation that was made (not of the edit that announces the
    conversion, which is caught), and the [OSError] of the [os.remove] of
    the [finally] block.  Whatever the download, the conversion and the
    provider do, the handler returns when the status operations and the
    deletions work. *)
Theorem only_status_faults_escape env update fs :
  let r := handle env update (start fs) in
  (forall e, r.1 = inl e ->
     (exists site,
        site ∈ status_sites (trace r.2) /\ site <> EditConverting
        /\ status_fault env site = Some e)
     \/ (exists msg, finally_fault env (trace r.2) = Some msg /\ e = OSError msg))
  /\ ((forall site, status_fault env site = None) ->
      (forall path, remove_fault env path = None) ->
      r.1 = inr tt).
Proof.
  cbv zeta. unfold finally_fault.
  request_cases env update fs res w'.
  all: try match goal with H : is_Some None |- _ => by destruct H end.
  all: split; [intros e' [= <-] | intros Hquiet Hremove; try reflexivity; congruence].
  all: first [ right; eexists; split; [eassumption | reflexivity]
             | left; exists Acknowledge; split; [in_list | done]
             | left; exists EditFailure; split; [in_list | done]
             | left; exists EditRecognizing; split; [in_list | done]
             | left; exists EditResult; split; [in_list | done]
             | left; exists EditFallback; split; [in_list | done] ].
Qed.

Lemma only_status_faults_escape_witness :
  (handle (mkEnv 0 (fun _ => None) None None None (WriteFailed (OSError "disk full") true)
             None Written (inr "hello world") (fun _ => None)) voice_update (start ∅)).1
  = inr tt.
Proof.
  apply (proj2 (only_status_faults_escape
                  (mkEnv 0 (fun _ => None) None None None
                     (WriteFailed (OSError "disk full") true) None Written
                     (inr "hello world") (fun _ => None)) voice_update ∅));
    reflexivity.
Defined.

(** X5. The recognition call ([recognize_sync]: reading the audio and asking
    the provider) is made at most once in a request, and it is made exactly
    when the event is eligible and every step before it succeeds: the
    acknowledgment, the directory, the chat action, the file handle, the
    download, the edit that announces the conversion, the decoding, the
    export, the deletion of the source artifact and the edit that announces
    the recognition. *)
Theorem recognition_reached_iff env update fs :
  let tr := trace (handle env update (start fs)).2 in
  length (recognize_calls tr) <= 1
  /\ (recognize_calls tr <> [] <->
      match request_kind update with
      | Some kind =>
          status_fault env Acknowledge = None
          /\ makedirs_fault env = None
          /\ chat_action_fault env = None
          /\ get_file_fault env = None
          /\ download_result env = Written
          /\ status_fault env EditConverting = None
          /\ from_file_fault env = None
          /\ export_result env = Written
          /\ remove_fault env (source_key env update kind) = None
          /\ status_fault env EditRecognizing = None
      | None => False
      end).
Proof.
  cbv zeta. unfold request_kind, source_key.
  request_cases env update fs res w'.
  all: try match goal with H : is_Some None |- _ => by destruct H end.
  all: split; [simpl; lia|].
  all: repeat match goal with
              | |- context [match voice ?m with _ => _ end] => destruct (voice m)
              | |- context [match video_note ?m with _ => _ end] => destruct (video_note m)
              end.
  all: try match goal with H : is_Some None |- _ => by destruct H end.
  all: try match goal with H : ~ is_Some (Some _) |- _ => by destruct H; eauto end.
  all: split;
    [ intros Hcalled; first [done | by repeat split]
    | first [done | intros Hsteps; exfalso; by intuition congruence] ].
Qed.

Lemma recognition_reached_iff_witness :
  recognize_calls (trace (handle (cooperative (inl UnknownValueError)) voice_update (start ∅)).2)
  <> [].
Proof.
  apply (proj2 (recognition_reached_iff (cooperative (inl UnknownValueError)) voice_update ∅)).
  by repeat split.
Defined.

(** X6. The status operations of a request come in one of eight sequences:
    none for an ineligible event; otherwise the acknowledgment, then the
    phase reports in pipeline order, cut short by a fault (of a status
    operation, or of the [os.remove] of line 149 after the conversion) or
    closed by one terminal report.  No phase report follows a terminal
    report, and the failure text never follows the announcement of the
    recognition. *)
Theorem status_sequence env update fs :
  status_sites (trace (handle env update (start fs)).2)
  ∈ [ [];
      [Acknowledge];
      [Acknowledge; EditFailure];
      [Acknowledge; EditConverting];
      [Acknowledge; EditConverting; EditFailure];
      [Acknowledge; EditConverting; EditRecognizing];
      [Acknowledge; EditConverting; EditRecognizing; EditResult];
      [Acknowledge; EditConverting; EditRecognizing; EditFallback] ].
Proof.
  request_cases env update fs res w'.
  all: by apply (bool_decide_unpack _).
Qed.

(** X7. A failure report ends the request.  When the generic failure text is
    sent, it is the last status operation and the recognition call has not
    been made; the exception of the first step of the download and convert
    stage that failed is written to the error log, and no detail of it is in
    the text.  The handler then ends as the [finally] block and that edit
    decide: with the [OSError] of the [os.remove] of line 149 when it
    raises, else with the exception of the edit when it raises, else by
    returning. *)
Theorem failure_report_ends_request env update fs :
  let r := handle env update (start fs) in
  EditFailure ∈ status_sites (trace r.2) ->
  final_status_text (trace r.2) = Some "❌ Произошла ошибка при обработке файла."
  /\ recognize_calls (trace r.2) = []
  /\ (exists e,
        stage_failure env = Some e
        /\ EvLog ERROR ("Ошибка на этапе скачивания или конвертации: " +:+ exn_str e)
             ∈ trace r.2)
  /\ r.1 = match finally_fault env (trace r.2), status_fault env EditFailure with
           | Some msg, _ => inl (OSError msg)
           | None, Some e => inl e
           | None, None => inr tt
           end.
Proof.
  cbv zeta. unfold finally_fault, stage_failure, stage_faults, write_fault.
  request_cases env update fs res w'.
  all: try match goal with H : is_Some None |- _ => by destruct H end.
  all: intros Hsent; try in_list.
  all: repeat match goal with H : remove_fault _ _ = _ |- _ => rewrite H end.
  all: repeat split; try reflexivity.
  all: eexists; split; [reflexivity|].
  all: repeat first [apply list_elem_of_here | apply list_elem_of_further].
Qed.

Lemma failure_report_ends_request_witness :
  let r := handle (mkEnv 0 (fun _ => None) None None None Written
                     (Some (OtherException "Decoding failed")) Written (inr "hello world")
                     (fun _ => None))
             voice_update (start ∅) in
  final_status_text (trace r.2) = Some "❌ Произошла ошибка при обработке файла."
  /\ recognize_calls (trace r.2) = []
  /\ r.1 = inr tt.
Proof.
  cbv zeta.
  assert (EditFailure
          ∈ status_sites
              (trace (handle (mkEnv 0 (fun _ => None) None None None Written
                                (Some (OtherException "Decoding failed")) Written
                                (inr "hello world") (fun _ => None))
                        voice_update (start ∅)).2)) as Hsent
    by (evaluate; in_list).
  apply failure_report_ends_request in Hsent as (Htext & Hcalls & _ & Hend).
  split; [exact Htext | split; [exact Hcalls | ]].
  rewrite Hend. evaluate. reflexivity.
Defined.

(** X8. What the requester reads at the end of a request that reached the
    provider: two line feeds and the transcript; the fallback text for an
    empty transcript; the no-speech marker; the service-error marker with the
    detail of the provider, which is the one detail that is shown; the
    processing-error marker, without detail, for any other exception. *)
Theorem outcome_rendering env update fs :
  let tr := trace (handle env update (start fs)).2 in
  recognize_calls tr <> [] ->
  final_status_text tr
  = Some match recognize_result env with
         | inr text =>
             if decide (text = "")
             then "Не удалось получить результат распознавания."
             else LF +:+ LF +:+ text
         | inl UnknownValueError => LF +:+ LF +:+ "[Речь не распознана]"
         | inl (RequestError detail) =>
             LF +:+ LF +:+ "[Ошибка сервиса распознавания: " +:+ detail +:+ "]"
         | inl _ => LF +:+ LF +:+ "[Ошибка обработки аудио]"
         end.
Proof.
  cbv zeta.
  request_cases env update fs res w'.
  all: intros Hcalled; try done.
  all: match goal with
       | H : truthy (Some ?t) = _ |- _ =>
           destruct (decide (t = "")) as [->|Hne];
           [ try done | apply truthy_Some in Hne; try congruence ]
       end.
  all: reflexivity.
Qed.

Lemma outcome_rendering_witness :
  final_status_text
    (trace (handle (cooperative (inl (RequestError "quota exceeded"))) voice_update (start ∅)).2)
  = Some (LF +:+ LF +:+ "[Ошибка сервиса распознавания: quota exceeded]").
Proof.
  apply (outcome_rendering (cooperative (inl (RequestError "quota exceeded"))) voice_update ∅).
  evaluate. done.
Defined.

(** ** The calls of a request *)

(** X9. Every call of a request is made for the payload and the keys of its
    media kind.  A voice message, also one that carries a video note as
    well, is fetched by the file id of the voice, stored as [.oga], decoded
    as [ogg] and announced with the record-voice chat action; a video note
    alone is stored as [.mp4], decoded as [mp4] and announced with the
    record-video chat action.  The export is always a [wav] file, the
    recognition language always [ru-RU], and only the two artifacts of the
    request are ever deleted. *)
Theorem calls_follow_media_kind env update fs :
  let tr := trace (handle env update (start fs)).2 in
  match message update with
  | None => tr = []
  | Some msg =>
      match voice msg, video_note msg with
      | Some v, _ =>
          Forall (addressed env update (voice_file_id v) "voice" ".oga" "ogg" RECORD_VOICE) tr
      | None, Some vn =>
          Forall (addressed env update (video_note_file_id vn) "vnote" ".mp4" "mp4" RECORD_VIDEO) tr
      | None, None => tr = []
      end
  end.
Proof.
  cbv zeta.
  request_cases env update fs res w'.
  all: try match goal with H : is_Some None |- _ => by destruct H end.
  all: repeat match goal with
              | |- context [match ?x with _ => _ end] => destruct x eqn:?; simplify_eq
              end.
  all: first [reflexivity | repeat (constructor; [simpl; auto|]); constructor].
Qed.

(** X10. No step of a request is made twice: apart from the log entries, the
    calls of a request are pairwise different.  Nothing is retried, and the
    two deletions are those of two different files. *)
Theorem no_call_is_repeated env update fs :
  NoDup (List.filter (fun ev => negb (is_log ev)) (trace (handle env update (start fs)).2)).
Proof.
  request_cases env update fs res w'.
  all: repeat (apply NoDup_cons_2;
               [repeat (apply not_elem_of_cons; split; [first [discriminate | congruence]|]);
                apply not_elem_of_nil|]).
  all: apply NoDup_nil_2.
Qed.

(** ** More on storage keys *)

Lemma occurs_app c (a b : string) : occurs c (a +:+ b) <-> occurs c a \/ occurs c b.
Proof.
  induction a as [|x a IH]; [simpl; tauto|].
  rewrite append_cons. simpl. rewrite IH. tauto.
Qed.

(** A character that is neither a digit nor the minus sign does not occur in
    the decimal form of an integer. *)
Lemma pretty_N_go_occurs c x s :
  (forall d, pretty_N_char d <> c) ->
  occurs c (pretty_N_go x s) -> occurs c s.
Proof.
  intros Hdigit. revert s. induction (N.lt_wf_0 x) as [x _ IH]; intros s.
  destruct (decide (x = 0%N)) as [->|Hx]; [done|].
  rewrite pretty_N_go_step by lia. intros Hocc.
  apply IH in Hocc; [|apply N.div_lt; lia].
  destruct Hocc as [Heq|Hocc]; [|done].
  symmetry in Heq. by apply Hdigit in Heq.
Qed.

Lemma pretty_Z_occurs c (z : Z) :
  (forall d, pretty_N_char d <> c) -> c <> "-"%char ->
  ~ occurs c (pretty z).
Proof.
  intros Hdigit Hminus.
  assert (forall x : N, ~ occurs c (pretty x)) as HN.
  { intros x. unfold pretty, pretty_N. case_decide.
    - simpl. intros [Heq|[]]. by apply (Hdigit 0%N).
    - intros Hocc. by apply pretty_N_go_occurs in Hocc. }
  destruct z as [|p|p]; unfold pretty, pretty_Z.
  - simpl. intros [Heq|[]]. by apply (Hdigit 0%N).
  - apply (HN (Npos p)).
  - rewrite append_cons. simpl. intros [Heq|Hocc]; [done|].
    by apply (HN (Npos p)).
Qed.

Lemma digit_not_slash d : pretty_N_char d <> "/"%char.
Proof. unfold pretty_N_char. repeat case_match; discriminate. Qed.

Lemma digit_not_dot d : pretty_N_char d <> "."%char.
Proof. unfold pretty_N_char. repeat case_match; discriminate. Qed.

(** X11. Every artifact lies directly in the scratch directory: its path is
    [temp_media/] followed by a file name without a slash, whatever the
    requester id and the clock are (negative ones too). *)
Theorem artifact_in_scratch_directory kind (u t : Z) key :
  kind ∈ media_kinds ->
  key ∈ artifact_keys kind u t ->
  exists name, key = TEMP_MEDIA_DIR +:+ "/" +:+ name /\ ~ occurs "/"%char name.
Proof.
  unfold media_kinds, artifact_keys. intros Hkind Hkey.
  repeat match goal with
         | H : _ ∈ _ :: _ |- _ => apply elem_of_cons in H as [->|H]
         | H : _ ∈ [] |- _ => by apply elem_of_nil in H
         end;
    rewrite artifact_path_unfold by done;
    (eexists; split; [reflexivity|]);
    rewrite !occurs_app; simpl;
    pose proof (pretty_Z_occurs "/" u digit_not_slash ltac:(done));
    pose proof (pretty_Z_occurs "/" t digit_not_slash ltac:(done));
    intuition discriminate.
Qed.

Lemma artifact_in_scratch_directory_witness :
  exists name, "temp_media/vnote_-7_0.mp4" = TEMP_MEDIA_DIR +:+ "/" +:+ name
               /\ ~ occurs "/"%char name.
Proof.
  apply (artifact_in_scratch_directory ("vnote", ".mp4") (-7) 0).
  - set_solver.
  - vm_compute. set_solver.
Defined.

(** Two keys of one shape that are equal belong to one second. *)
Lemma key_timestamp (u u' t t' : Z) (rest rest' : string) :
  pretty u +:+ "_" +:+ pretty t +:+ String "." rest
  = pretty u' +:+ "_" +:+ pretty t' +:+ String "." rest' ->
  t = t' /\ rest = rest'.
Proof.
  intros Heq. apply cut_unique in Heq as [_ Heq]; [|apply pretty_Z_sep..].
  apply cut_unique in Heq as [Heq ->];
    [|by apply pretty_Z_occurs; [apply digit_not_dot|]..].
  by apply (inj pretty) in Heq.
Qed.

(** X12. Two requests share a storage key exactly when they have the same media
    kind, the same requester and the same second on the clock. *)
Theorem artifact_key_identifies_request kind1 kind2 (u1 u2 t1 t2 : Z) :
  kind1 ∈ media_kinds -> kind2 ∈ media_kinds ->
  (exists key, key ∈ artifact_keys kind1 u1 t1 /\ key ∈ artifact_keys kind2 u2 t2)
  <-> kind1 = kind2 /\ u1 = u2 /\ t1 = t2.
Proof.
  intros Hk1 Hk2. split.
  - intros (key & Hkey1 & Hkey2). revert Hkey1 Hkey2.
    unfold media_kinds, artifact_keys in *.
    repeat match goal with
           | H : _ ∈ _ :: _ |- _ => apply elem_of_cons in H as [->|H]
           | H : _ ∈ [] |- _ => by apply elem_of_nil in H
           end;
      simpl; rewrite !elem_of_cons, !elem_of_nil;
      intros [->|[->|[]]] [Heq|[Heq|[]]];
      rewrite !artifact_path_unfold in Heq by done;
      rewrite !append_cons in Heq; simplify_eq;
      (split; [done|]); (split; [by eapply key_user | by eapply key_timestamp]).
  - intros (-> & -> & ->). exists (artifact_path kind2.1 u2 t2 ".wav").
    unfold artifact_keys. rewrite !elem_of_cons. tauto.
Qed.

Lemma artifact_key_identifies_request_witness :
  (exists key, key ∈ artifact_keys ("voice", ".oga") 42 1700000000
               /\ key ∈ artifact_keys ("voice", ".oga") 42 1700000000)
  /\ ~ (exists key, key ∈ artifact_keys ("voice", ".oga") 42 1700000000
                    /\ key ∈ artifact_keys ("voice", ".oga") 42 1700000001).
Proof.
  split.
  - apply (artifact_key_identifies_request ("voice", ".oga") ("voice", ".oga")
             42 42 1700000000 1700000000); [set_solver | set_solver | done].
  - intros Hshared.
    assert (("voice", ".oga") ∈ media_kinds) as Hkind by (left; reflexivity).
    apply (artifact_key_identifies_request ("voice", ".oga") ("voice", ".oga")
             42 42 1700000000 1700000001 Hkind Hkind) in Hshared as (_ & _ & Hclock).
    discriminate Hclock.
Defined.

(** X13. The source artifact and the canonical artifact of a request are two
    files: the conversion never writes over what it reads. *)
Theorem artifact_keys_NoDup kind (u t : Z) :
  kind ∈ media_kinds -> NoDup (artifact_keys kind u t).
Proof.
  unfold media_kinds, artifact_keys. intros Hkind.
  repeat match goal with
         | H : _ ∈ _ :: _ |- _ => apply elem_of_cons in H as [->|H]
         | H : _ ∈ [] |- _ => by apply elem_of_nil in H
         end;
    simpl; apply NoDup_cons; (split; [|apply NoDup_singleton]);
    rewrite list_elem_of_singleton; by apply source_is_not_canonical.
Qed.

Lemma artifact_keys_NoDup_witness :
  NoDup ["temp_media/voice_42_1700000000.oga"; "temp_media/voice_42_1700000000.wav"].
Proof.
  apply (artifact_keys_NoDup ("voice", ".oga") 42 1700000000). set_solver.
Defined.
